(** * Movie ratings dashboard: the filter-and-aggregate pipeline of [app.py]

    The dashboard is one Streamlit script.  Each run of it reads the
    widget values out of [st.session_state], filters the data frame, and
    computes four aggregations with pandas.  This file embeds that pipeline:

    - a data frame is a [list] of rows, in row order;
    - a boolean-mask selection [df[mask]] is a [filter];
    - [st.session_state] is a finite map from widget keys to values;
    - [groupby(k).agg(...).reset_index()] is the list of groups in
      ascending key order, one aggregate row per distinct key;
    - a mean rating (a float64 quotient of an integer sum by a count) is
      the exact rational, which orders the groups the same way;
    - [sort_values] is called with its default [kind='quicksort'], which
      pandas documents as not stable: it is modelled by its contract (the
      class [SortValues]), with two executable instances. *)

From Stdlib Require Import Ascii QArith Qcanon.
From stdpp Require Import gmap strings list sorting fin_maps.

(** ** Rows of the rating table

    Columns of [data/movie_ratings.csv].  The [genres] cell is optional:
    [pd.read_csv] reads an empty field as NaN, and the script has a branch
    ("No genre data available") that only such rows can reach.  The other
    columns are taken as the data model types them. *)

Record rating_record := RatingRecord {
  user_id    : Z;
  age        : Z;
  gender     : string;
  occupation : string;
  title      : string;
  genres     : option string;
  year       : Z;
  rating     : Z
}.

Global Instance rating_record_eq_dec : EqDecision rating_record.
Proof. solve_decision. Defined.

Abbreviation dataframe := (list rating_record).

Definition set_genres (g : option string) (r : rating_record) : rating_record :=
  {| user_id := user_id r; age := age r; gender := gender r;
     occupation := occupation r; title := title r; genres := g;
     year := year r; rating := rating r |}.

(** ** Python and pandas primitives *)

Module Py.

(** [Series.unique()]: the distinct values, in order of first appearance. *)
Fixpoint unique {A} `{EqDecision A} (l : list A) : list A :=
  match l with
  | [] => []
  | x :: l => x :: filter (λ y, y ≠ x) (unique l)
  end.

(** [sorted(xs)] on integers and on strings (code-point order). *)
Definition sorted_Z (l : list Z) : list Z := merge_sort Z.le l.

(** [min(xs)] and [max(xs)]; [None] stands for the [ValueError] that Python
    raises on an empty sequence. *)
Definition py_min (l : list Z) : option Z :=
  match l with
  | [] => None
  | x :: l => Some (foldl Z.min x l)
  end.

Definition py_max (l : list Z) : option Z :=
  match l with
  | [] => None
  | x :: l => Some (foldl Z.max x l)
  end.

(** [s.split(sep)] for a one-character separator: never an empty list. *)
Fixpoint str_split (sep : ascii) (s : string) : list string :=
  match s with
  | EmptyString => [EmptyString]
  | String c s =>
      if Ascii.eqb c sep then EmptyString :: str_split sep s
      else match str_split sep s with
           | [] => [String c EmptyString]
           | w :: ws => String c w :: ws
           end
  end.

(** [Series.explode()] on one cell: a list cell gives one row per element,
    a NaN cell or an empty list gives one NaN row. *)
Definition explode {A} (cell : option (list A)) : list (option A) :=
  match cell with
  | None | Some [] => [None]
  | Some l => Some <$> l
  end.

(** [Series.value_counts()]: occurrences of each value, NaN dropped.  The
    result is used as a map from value to count; the order in which pandas
    lists its entries only matters to the drawing of the bar chart. *)
Definition value_counts (xs : list (option string)) : gmap string nat :=
  foldr (λ x m, match x with
                | None => m
                | Some g => <[g := S (default 0%nat (m !! g))]> m
                end) ∅ xs.

End Py.
Export Py.

(** ** Session state and the filter widgets (lines 23-60) *)

Inductive widget_value :=
  | RangeValue (lo hi : Z)
  | ListValue (items : list string).

Abbreviation session_state := (gmap string widget_value).

(** The three values a run of the script filters by. *)
Record selection := Selection {
  age_range   : Z * Z;
  occupations : list string;
  genders     : list string
}.

Module Sidebar.

Definition unique_ages (df : dataframe) : list Z :=
  sorted_Z (unique (age <$> df)).

Definition default_age_range (df : dataframe) : option (Z * Z) :=
  lo ← py_min (unique_ages df);
  hi ← py_max (unique_ages df);
  Some (lo, hi).

Definition default_occupations (df : dataframe) : list string :=
  unique (occupation <$> df).

Definition default_genders (df : dataframe) : list string :=
  unique (gender <$> df).



(** All three defaults; [None] when line 24 raises. *)
Definition defaults (df : dataframe) : option selection :=
  rg ← default_age_range df;
  Some (Selection rg (default_occupations df) (default_genders df)).

(** [if key not in st.session_state: st.session_state[key] = v] *)
Definition init_key (key : string) (v : widget_value)
    (ss : session_state) : session_state :=
  match ss !! key with
  | Some _ => ss
  | None => <[key := v]> ss
  end.

Definition init_session_state (d : selection) (ss : session_state) : session_state :=
  init_key "genders" (ListValue (genders d))
    (init_key "occupations" (ListValue (occupations d))
       (init_key "age_range" (RangeValue (age_range d).1 (age_range d).2) ss)).

(** The callback of the "Clear All Filters" button. *)
Definition clear_filters (d : selection) (ss : session_state) : session_state :=
  <["genders" := ListValue (genders d)]>
    (<["occupations" := ListValue (occupations d)]>
       (<["age_range" := RangeValue (age_range d).1 (age_range d).2]> ss)).

(** A user interaction with a keyed widget: Streamlit stores the new value
    under the widget's key and reruns the script.  Nothing in the script
    inspects the value before it is used. *)
Definition widget_change (key : string) (v : widget_value)
    (ss : session_state) : session_state :=
  <[key := v]> ss.

(** A keyed widget returns the value held under its key. *)
Definition slider (key : string) (ss : session_state) : option (Z * Z) :=
  match ss !! key with
  | Some (RangeValue lo hi) => Some (lo, hi)
  | _ => None
  end.

Definition multiselect (key : string) (ss : session_state) : option (list string) :=
  match ss !! key with
  | Some (ListValue items) => Some items
  | _ => None
  end.

Definition current_selection (ss : session_state) : option selection :=
  rg ← slider "age_range" ss;
  os ← multiselect "occupations" ss;
  gs ← multiselect "genders" ss;
  Some (Selection rg os gs).

(** A selection with ordered age bounds and something selected in both
    lists.  The script never checks for it. *)
Definition valid_selection (sel : selection) : Prop :=
  ((age_range sel).1 ≤ (age_range sel).2)%Z
  ∧ occupations sel ≠ [] ∧ genders sel ≠ [].

End Sidebar.
Export Sidebar.

(** ** Filtering (lines 63-65) *)

Module Filter.

(** [(df['age'] >= age_range[0]) & (df['age'] <= age_range[1])] *)
Definition age_mask (rg : Z * Z) (r : rating_record) : Prop :=
  (rg.1 ≤ age r)%Z ∧ (age r ≤ rg.2)%Z.

(** [filtered_df['occupation'].isin(occupations)] *)
Definition occupation_mask (os : list string) (r : rating_record) : Prop :=
  occupation r ∈ os.

(** [filtered_df['gender'].isin(genders)] *)
Definition gender_mask (gs : list string) (r : rating_record) : Prop :=
  gender r ∈ gs.

Global Instance age_mask_dec rg r : Decision (age_mask rg r).
Proof. unfold age_mask. apply _. Defined.
Global Instance occupation_mask_dec os r : Decision (occupation_mask os r).
Proof. unfold occupation_mask. apply _. Defined.
Global Instance gender_mask_dec gs r : Decision (gender_mask gs r).
Proof. unfold gender_mask. apply _. Defined.

(** The three successive assignments to [filtered_df]. *)
Definition filtered_df (df : dataframe) (rg : Z * Z)
    (os gs : list string) : dataframe :=
  let filtered_df := filter (age_mask rg) df in
  let filtered_df := filter (occupation_mask os) filtered_df in
  filter (gender_mask gs) filtered_df.

(** A record passes when all three masks hold. *)
Definition passes (rg : Z * Z) (os gs : list string) (r : rating_record) : Prop :=
  age_mask rg r ∧ occupation_mask os r ∧ gender_mask gs r.

Global Instance passes_dec rg os gs r : Decision (passes rg os gs r).
Proof. unfold passes. apply _. Defined.

End Filter.
Export Filter.

(** One run of the script up to line 65: the session state after the
    initialisation of lines 28-33, and the filtered frame. *)
Definition run (df : dataframe) (ss : session_state)
    : option (session_state * dataframe) :=
  d ← defaults df;
  let ss := init_session_state d ss in
  sel ← current_selection ss;
  Some (ss, filtered_df df (age_range sel) (occupations sel) (genders sel)).

(** ** Group-by aggregation *)

Record agg_row (K : Type) := AggRow {
  group_key   : K;
  mean_rating : Qc;
  count       : nat
}.
Arguments AggRow {K} _ _ _.
Arguments group_key {K} _.
Arguments mean_rating {K} _.
Arguments count {K} _.

Module Agg.

Definition Zsum (xs : list Z) : Z := foldr Z.add 0%Z xs.

(** [('rating', 'mean')] over a group; a group is never empty. *)
Definition mean (xs : list Z) : Qc :=
  Q2Qc (inject_Z (Zsum xs) / inject_Z (Z.of_nat (length xs))).

Section groupby.
Context {Row K : Type} `{EqDecision K}.
Context (le : relation K) `{!RelDecision le}.
Context (key : Row → K) (val : Row → Z).

(** The rows of the group with key [k]. *)
Definition group (rows : list Row) (k : K) : list Row :=
  filter (λ r, key r = k) rows.

(** [groupby] sorts the group keys ([sort=True] is the default). *)
Definition group_keys (rows : list Row) : list K :=
  merge_sort le (unique (key <$> rows)).

(** [rows.groupby(key).agg(mean_rating=(val,'mean'), count=(val,'count'))
    .reset_index()] *)
Definition groupby_agg (rows : list Row) : list (agg_row K) :=
  (λ k, let g := group rows k in
        AggRow k (mean (val <$> g)) (length g)) <$> group_keys rows.

End groupby.

(** [groupby] leaves out the rows whose key is NaN ([dropna=True]). *)
Definition dropna {A B} (rows : list (option A * B)) : list (A * B) :=
  omap (λ row, (λ k, (k, row.2)) <$> row.1) rows.

(** The order of [sort_values('mean_rating', ascending=False)]. *)
Definition by_mean_desc {K} (a b : agg_row K) : Prop :=
  (mean_rating b ≤ mean_rating a)%Qc.

Definition by_mean_asc {K} (a b : agg_row K) : Prop :=
  (mean_rating a ≤ mean_rating b)%Qc.

Global Instance by_mean_desc_dec {K} : RelDecision (@by_mean_desc K).
Proof. intros a b. unfold by_mean_desc. apply _. Defined.
Global Instance by_mean_asc_dec {K} : RelDecision (@by_mean_asc K).
Proof. intros a b. unfold by_mean_asc. apply _. Defined.

Global Instance by_mean_desc_trans {K} : Transitive (@by_mean_desc K).
Proof. intros a b c Hab Hbc. unfold by_mean_desc in *. by etrans. Qed.
Global Instance by_mean_desc_total {K} : Total (@by_mean_desc K).
Proof. intros a b. unfold by_mean_desc. apply (total Qcle). Qed.
Global Instance by_mean_asc_trans {K} : Transitive (@by_mean_asc K).
Proof. intros a b c Hab Hbc. unfold by_mean_asc in *. by etrans. Qed.
Global Instance by_mean_asc_total {K} : Total (@by_mean_asc K).
Proof. intros a b. unfold by_mean_asc. apply (total Qcle). Qed.

(** What [sort_values('mean_rating', ascending=False)] guarantees with the
    default sorting algorithm: the rows come back rearranged, in
    descending order of the mean.  The relative order of rows with equal
    means is not part of the contract. *)
Class SortValues := {
  sort_values_desc : ∀ {K : Type}, list (agg_row K) → list (agg_row K);
  sort_values_desc_perm : ∀ {K : Type} (l : list (agg_row K)),
    sort_values_desc l ≡ₚ l;
  sort_values_desc_sorted : ∀ {K : Type} (l : list (agg_row K)),
    StronglySorted by_mean_desc (sort_values_desc l)
}.

(** A sort that merges on the descending order. *)
Definition merge_desc {K} (l : list (agg_row K)) : list (agg_row K) :=
  merge_sort by_mean_desc l.


#[export] Instance merge_desc_sort : SortValues.
Proof.
  refine {| sort_values_desc := @merge_desc |}.
  - intros K l. apply merge_sort_Permutation.
  - intros K l. apply StronglySorted_merge_sort; apply _.
Defined.


End Agg.
Export Agg.

(** ** The four views (lines 77-128) *)

Module Views.

(** What view 1 hands to the page: a warning, or the bar chart of the
    per-genre counts. *)
Inductive breakdown_output :=
  | Warning (msg : string)
  | BarChart (genre_counts : gmap string nat).

(** [filtered_df['genres'].str.split('|').explode().value_counts()] *)
Definition genre_counts (view : dataframe) : gmap string nat :=
  value_counts (view ≫= (λ r, explode (str_split "|"%char <$> genres r))).

Definition genre_breakdown (view : dataframe) : breakdown_output :=
  if decide (view = []) then
    Warning "No data available for the selected filters."
  else
    let genre_counts := genre_counts view in
    if decide (genre_counts = ∅) then
      Warning "No genre data available for the selected filters."
    else BarChart genre_counts.

(** The sum of the per-genre counts. *)
Definition total_count (m : gmap string nat) : nat :=
  sum_list ((map_to_list m).*2).

(** The genre tags of a record; none when the cell is missing. *)
Definition genre_tags (r : rating_record) : list string :=
  match genres r with
  | None => []
  | Some s => str_split "|"%char s
  end.

(** [genre_ratings.assign(genre=...).explode('genre')]: the exploded frame,
    each row paired with its [genre] cell. *)
Definition genre_ratings (view : dataframe) : list (option string * rating_record) :=
  view ≫= (λ r, (λ g, (g, r)) <$> explode (str_split "|"%char <$> genres r)).

(** Line 98, before the threshold. *)
Definition genre_grouped_all (view : dataframe) : list (agg_row string) :=
  groupby_agg String.le fst (λ row, rating row.2) (dropna (genre_ratings view)).

(** Line 99. *)
Definition genre_grouped (view : dataframe) : list (agg_row string) :=
  filter (λ g, 50 ≤ count g) (genre_grouped_all view).

(** Line 110, before the threshold. *)
Definition year_grouped_all (view : dataframe) : list (agg_row Z) :=
  groupby_agg Z.le year rating view.

(** Line 111. *)
Definition year_grouped (view : dataframe) : list (agg_row Z) :=
  filter (λ g, 50 ≤ count g) (year_grouped_all view).

(** Line 122. *)
Definition movie_grouped (view : dataframe) : list (agg_row string) :=
  groupby_agg String.le title rating view.

Section sorted_views.
Context `{SortValues}.

(** Line 101: the frame given to the bar plot. *)
Definition genre_barplot_data (view : dataframe) : list (agg_row string) :=
  sort_values_desc (genre_grouped view).

(** Lines 123 and 124. *)
Definition top5_50 (view : dataframe) : list (agg_row string) :=
  take 5 (sort_values_desc (filter (λ g, 50 ≤ count g) (movie_grouped view))).

Definition top5_150 (view : dataframe) : list (agg_row string) :=
  take 5 (sort_values_desc (filter (λ g, 150 ≤ count g) (movie_grouped view))).

End sorted_views.


End Views.
Export Views.

(** ** The rest of the page *)

Module Page.

(** Line 68: [filtered_df.head(100)], the rows shown under "Dataset
    Preview". *)
Definition dataset_preview (view : dataframe) : dataframe := take 100 view.

(** Line 113: the points of the trend line, release year against mean
    rating, in the row order of [year_grouped]. *)
Definition trend_points (view : dataframe) : list (Z * Qc) :=
  (λ g, (group_key g, mean_rating g)) <$> year_grouped view.

(** [s.count(sep)] for a one-character separator. *)
Fixpoint str_count (sep : ascii) (s : string) : nat :=
  match s with
  | EmptyString => 0
  | String c s => if Ascii.eqb c sep then S (str_count sep s) else str_count sep s
  end.

(** [sep.join(pieces)] for a one-character separator. *)
Definition str_join (sep : ascii) (pieces : list string) : string :=
  String.concat (String sep EmptyString) pieces.

End Page.
Export Page.

(** ** Sample data *)

Module Samples.

Definition rec (a : Z) (g o t : string) (gs : option string) (y r : Z)
    : rating_record :=
  RatingRecord 0 a g o t gs y r.

(** The two-record data set of the documented scenarios. *)
Definition two_ratings : dataframe :=
  [rec 25 "M" "engineer" "A" (Some "Action|Comedy") 2000 4;
   rec 40 "F" "teacher" "B" (Some "Comedy") 2000 2].

(** A data set in which one rating has no genres cell. *)
Definition with_missing_genres : dataframe :=
  [rec 25 "M" "engineer" "A" (Some "Action") 2000 4;
   rec 40 "F" "teacher" "B" None 2000 2].

(** Two movies with fifty ratings of 4 each: equal means. *)
Definition two_tied_movies : dataframe :=
  replicate 50 (rec 25 "M" "engineer" "A" (Some "Drama") 1999 4)
  ++ replicate 50 (rec 25 "M" "engineer" "B" (Some "Drama") 2000 4).

(** One movie with a hundred and fifty ratings of 4. *)
Definition one_popular_movie : dataframe :=
  replicate 150 (rec 25 "M" "engineer" "A" (Some "Drama") 1999 4).

End Samples.

(** * Properties *)

(** ** Filtering *)

Section filter_facts.
Context (df : dataframe) (rg : Z * Z) (os gs : list string).

Lemma filtered_df_filter :
  filtered_df df rg os gs = filter (passes rg os gs) df.
Proof.
  unfold filtered_df. rewrite !list_filter_filter.
  apply list_filter_iff. intros r. unfold passes. tauto.
Qed.

Lemma elem_of_filtered_df r :
  r ∈ filtered_df df rg os gs ↔ r ∈ df ∧ passes rg os gs r.
Proof. rewrite filtered_df_filter, list_elem_of_filter. tauto. Qed.

Lemma filtered_df_sublist : filtered_df df rg os gs `sublist_of` df.
Proof. rewrite filtered_df_filter. apply sublist_filter. Qed.

Lemma filtered_df_nil :
  filtered_df df rg os gs = [] ↔ ∀ r, r ∈ df → ¬ passes rg os gs r.
Proof.
  split.
  - intros Hnil r Hr Hp.
    assert (r ∈ filtered_df df rg os gs) as Hin by by apply elem_of_filtered_df.
    rewrite Hnil in Hin. by apply not_elem_of_nil in Hin.
  - intros Hno. destruct (filtered_df df rg os gs) as [|r l] eqn:E; [done|].
    assert (r ∈ filtered_df df rg os gs) as Hin by (rewrite E; left).
    apply elem_of_filtered_df in Hin as [Hr Hp]. by destruct (Hno r).
Qed.

End filter_facts.

Lemma passes_set_genres rg os gs g r :
  passes rg os gs (set_genres g r) ↔ passes rg os gs r.
Proof. done. Qed.

Lemma filter_passes_regenre rg os gs (f : rating_record → option string)
    (df : dataframe) :
  filter (passes rg os gs) ((λ r, set_genres (f r) r) <$> df)
  = (λ r, set_genres (f r) r) <$> filter (passes rg os gs) df.
Proof.
  induction df as [|r df IH]; [done|].
  rewrite fmap_cons, !filter_cons, IH.
  destruct (decide (passes rg os gs (set_genres (f r) r))) as [Hp|Hp];
    destruct (decide (passes rg os gs r)) as [Hq|Hq]; done.
Qed.

(** A sublist never holds more copies of a row than the list it is
    taken from. *)
Lemma sublist_copies {A} `{EqDecision A} (l k : list A) (x : A) :
  l `sublist_of` k →
  length (filter (λ y, y = x) l) ≤ length (filter (λ y, y = x) k).
Proof.
  intros Hsub. apply sublist_length.
  induction Hsub as [|y l k Hsub IH|y l k Hsub IH]; [done|..].
  - rewrite !filter_cons. destruct (decide (y = x)); [by constructor|done].
  - rewrite filter_cons. destruct (decide (y = x)); [by constructor|done].
Qed.

(** C1: a record is in the filtered frame exactly when it is in the data
    set and its age lies within the two bounds (both included), its
    occupation is among the selected ones and its gender is among the
    selected ones; the filtered frame is the data set restricted to the
    rows where all three hold, so it is no longer than the data set; and
    rewriting the genres column in any way changes nothing to which rows
    are kept. *)
Theorem filtered_df_inclusion (df : dataframe) (rg : Z * Z) (os gs : list string) :
  (∀ r, r ∈ filtered_df df rg os gs ↔
        r ∈ df ∧ (rg.1 ≤ age r ≤ rg.2)%Z ∧ occupation r ∈ os ∧ gender r ∈ gs)
  ∧ filtered_df df rg os gs
    = filter (λ r, (rg.1 ≤ age r ≤ rg.2)%Z ∧ occupation r ∈ os ∧ gender r ∈ gs) df
  ∧ length (filtered_df df rg os gs) ≤ length df
  ∧ (∀ f : rating_record → option string,
       filtered_df ((λ r, set_genres (f r) r) <$> df) rg os gs
       = (λ r, set_genres (f r) r) <$> filtered_df df rg os gs).
Proof.
  split; [|split; [|split]].
  - intros r. by rewrite elem_of_filtered_df.
  - by rewrite filtered_df_filter.
  - apply sublist_length, filtered_df_sublist.
  - intros f. rewrite !filtered_df_filter. apply filter_passes_regenre.
Qed.

(** C10: the filtered frame is a subsequence of the data set: its rows
    are rows of the data set, in the same relative order, and no row
    occurs in it more often than it does in the data set. *)
Theorem filtered_df_subsequence (df : dataframe) (rg : Z * Z) (os gs : list string) :
  filtered_df df rg os gs `sublist_of` df
  ∧ ∀ r, length (filter (λ y, y = r) (filtered_df df rg os gs))
         ≤ length (filter (λ y, y = r) df).
Proof.
  split; [apply filtered_df_sublist|].
  intros r. apply sublist_copies, filtered_df_sublist.
Qed.

(** ** Distinct values and sorted keys *)

Section unique_facts.
Context {A : Type} `{EqDecision A}.
Implicit Types l : list A.

Lemma elem_of_unique l x : x ∈ unique l ↔ x ∈ l.
Proof.
  induction l as [|y l IH]; simpl; [done|].
  rewrite !elem_of_cons, list_elem_of_filter, IH.
  destruct (decide (x = y)); tauto.
Qed.

Lemma NoDup_unique l : NoDup (unique l).
Proof.
  induction l as [|y l IH]; simpl; constructor.
  - rewrite list_elem_of_filter. by intros [Hne _].
  - by apply NoDup_filter.
Qed.



Lemma unique_nil l : unique l = [] ↔ l = [].
Proof. by destruct l. Qed.

End unique_facts.

Lemma StronglySorted_filter {A} (R : relation A) (P : A → Prop)
    `{∀ x, Decision (P x)} (l : list A) :
  StronglySorted R l → StronglySorted R (filter P l).
Proof.
  induction 1 as [|x l Hl IH Hx]; [constructor|].
  rewrite filter_cons. destruct (decide (P x)); [|done].
  constructor; [done|].
  rewrite Forall_forall in Hx |- *. intros y [_ Hy]%list_elem_of_filter. auto.
Qed.

Lemma StronglySorted_mono {A} (R1 R2 : relation A) (l : list A) :
  (∀ x y, R1 x y → R2 x y) → StronglySorted R1 l → StronglySorted R2 l.
Proof.
  intros HR. induction 1 as [|x l Hl IH Hx]; constructor; [done|].
  eapply Forall_impl; [exact Hx|]. auto.
Qed.

Lemma StronglySorted_NoDup_strict {A} (R : relation A) (l : list A) :
  StronglySorted R l → NoDup l → StronglySorted (λ x y, R x y ∧ x ≠ y) l.
Proof.
  induction 1 as [|x l Hl IH Hx]; intros Hnd; [constructor|].
  apply NoDup_cons in Hnd as [Hnin Hnd]. constructor; [auto|].
  rewrite Forall_forall in Hx |- *. intros y Hy. split; [auto|].
  intros ->. done.
Qed.

(** ** Group-by *)

Section groupby_facts.
Context {Row K : Type} `{EqDecision K}.
Context (le : relation K) `{!RelDecision le} `{!PartialOrder le} `{!Total le}.
Context (key : Row → K) (val : Row → Z).
Implicit Types rows : list Row.

Lemma elem_of_group_keys rows k :
  k ∈ group_keys le key rows ↔ ∃ r, r ∈ rows ∧ key r = k.
Proof.
  unfold group_keys. rewrite merge_sort_Permutation, elem_of_unique.
  rewrite list_elem_of_fmap. split.
  - intros (r & -> & Hr). eauto.
  - intros (r & Hr & <-). eauto.
Qed.

Lemma NoDup_group_keys rows : NoDup (group_keys le key rows).
Proof.
  unfold group_keys. rewrite merge_sort_Permutation. apply NoDup_unique.
Qed.

Lemma group_keys_sorted rows :
  StronglySorted (λ k1 k2, le k1 k2 ∧ k1 ≠ k2) (group_keys le key rows).
Proof.
  apply StronglySorted_NoDup_strict; [|apply NoDup_group_keys].
  apply StronglySorted_merge_sort; apply _.
Qed.

Lemma groupby_agg_keys rows :
  group_key <$> groupby_agg le key val rows = group_keys le key rows.
Proof.
  unfold groupby_agg. rewrite <-list_fmap_compose.
  rewrite <-(list_fmap_id (group_keys le key rows)) at 2.
  by apply list_fmap_ext.
Qed.

Lemma elem_of_groupby_agg rows g :
  g ∈ groupby_agg le key val rows ↔
    (∃ r, r ∈ rows ∧ key r = group_key g)
    ∧ mean_rating g = mean (val <$> group key rows (group_key g))
    ∧ count g = length (group key rows (group_key g)).
Proof.
  unfold groupby_agg. rewrite list_elem_of_fmap. split.
  - intros (k & -> & Hk). apply elem_of_group_keys in Hk. by simpl.
  - intros (Hk & Hm & Hc). exists (group_key g). split.
    + destruct g as [k m c]; simpl in *. by rewrite Hm, Hc.
    + by apply elem_of_group_keys.
Qed.

Lemma groupby_agg_sorted rows :
  StronglySorted (λ a b, le (group_key a) (group_key b)
                         ∧ group_key a ≠ group_key b)
    (groupby_agg le key val rows).
Proof.
  unfold groupby_agg.
  eapply StronglySorted_fmap; [|apply group_keys_sorted]. by simpl.
Qed.

Lemma groupby_agg_count_pos rows g :
  g ∈ groupby_agg le key val rows → 0 < count g.
Proof.
  intros ((r & Hr & Hk) & _ & ->)%elem_of_groupby_agg.
  assert (r ∈ group key rows (group_key g)) as Hin
    by by apply list_elem_of_filter.
  destruct (group key rows (group_key g)); [by apply elem_of_nil in Hin|].
  simpl. lia.
Qed.

Lemma groupby_agg_nil : groupby_agg le key val [] = [].
Proof. done. Qed.

End groupby_facts.

Lemma dropna_group_length {A B} `{EqDecision A} (rows : list (option A * B)) k :
  length (filter (λ row, row.1 = k) (dropna rows))
  = length (filter (λ row, row.1 = Some k) rows).
Proof.
  induction rows as [|[[a|] b] rows IH]; [done|..];
    unfold dropna in *; csimpl; rewrite !filter_cons; simpl.
  - destruct (decide (a = k)), (decide (Some a = Some k)); simpl;
      try congruence; by rewrite IH.
  - destruct (decide (None = Some k)); [done|]. apply IH.
Qed.

(** ** Minimum support and chronological order *)

Section threshold.
Context `{SortValues}.

Lemma genre_barplot_data_perm view :
  genre_barplot_data view ≡ₚ genre_grouped view.
Proof. apply sort_values_desc_perm. Qed.

(** C2: every genre group of the genre-satisfaction frame, also as it is
    handed to the bar plot, has a count of at least 50, and that count is
    the number of exploded rows carrying the genre; every year group of
    the yearly trend has a count of at least 50, and that count is the
    number of ratings of movies of that year; and both thresholded frames
    are sub-frames of what the same group-by gives before the threshold
    is applied. *)
Theorem minimum_support_50 (view : dataframe) :
  (∀ g, g ∈ genre_grouped view ∨ g ∈ genre_barplot_data view →
        50 ≤ count g
        ∧ count g = length (filter (λ row, row.1 = Some (group_key g))
                              (genre_ratings view)))
  ∧ (∀ g, g ∈ year_grouped view →
          50 ≤ count g
          ∧ count g = length (filter (λ r, year r = group_key g) view))
  ∧ genre_grouped view `sublist_of` genre_grouped_all view
  ∧ (∀ g, g ∈ genre_barplot_data view → g ∈ genre_grouped_all view)
  ∧ year_grouped view `sublist_of` year_grouped_all view.
Proof.
  assert (∀ g, g ∈ genre_grouped view →
    50 ≤ count g
    ∧ count g = length (filter (λ row, row.1 = Some (group_key g))
                          (genre_ratings view))) as Hgenre.
  { intros g [Hc Hg]%list_elem_of_filter. split; [done|].
    apply elem_of_groupby_agg in Hg as (_ & _ & ->); [|apply _..].
    apply dropna_group_length. }
  split; [|split; [|split; [|split]]].
  - intros g [Hg|Hg]; [by apply Hgenre|].
    apply Hgenre. by rewrite <-genre_barplot_data_perm.
  - intros g [Hc Hg]%list_elem_of_filter. split; [done|].
    by apply elem_of_groupby_agg in Hg as (_ & _ & ->); [|apply _..].
  - apply sublist_filter.
  - intros g Hg. rewrite genre_barplot_data_perm in Hg.
    by apply list_elem_of_filter in Hg as [_ Hg].
  - apply sublist_filter.
Qed.

End threshold.

(** C7: the rows of the yearly trend are in strictly increasing order of
    release year, whatever their means and counts are, and so is the
    sequence of years drawn along the x axis. *)
Theorem year_grouped_chronological (view : dataframe) :
  StronglySorted (λ a b, (group_key a < group_key b)%Z) (year_grouped view)
  ∧ StronglySorted Z.lt (group_key <$> year_grouped view).
Proof.
  assert (StronglySorted (λ a b, (group_key a < group_key b)%Z)
            (year_grouped view)) as Hs.
  { apply StronglySorted_filter.
    eapply StronglySorted_mono; [|apply groupby_agg_sorted; apply _].
    intros a b [Hle Hne]. simpl in *. lia. }
  split; [done|].
  eapply StronglySorted_fmap; [|exact Hs]. done.
Qed.

(** ** Rankings *)

Section rankings.
Context `{SortValues}.

Lemma sort_values_desc_length {K} (l : list (agg_row K)) :
  length (sort_values_desc l) = length l.
Proof. apply Permutation_length, sort_values_desc_perm. Qed.

Lemma sort_values_desc_nil {K} : sort_values_desc (@nil (agg_row K)) = [].
Proof. apply Permutation_nil_r, sort_values_desc_perm. Qed.

Lemma elem_of_sort_values_desc {K} (l : list (agg_row K)) g :
  g ∈ sort_values_desc l ↔ g ∈ l.
Proof. by rewrite sort_values_desc_perm. Qed.

(** The first [n] rows of a sorted frame are sorted, come from the frame
    without repetition, and no row left out beats a row kept. *)
Lemma head_of_sorted {K} (n : nat) (l : list (agg_row K)) :
  StronglySorted by_mean_desc (take n (sort_values_desc l))
  ∧ take n (sort_values_desc l) ⊆+ l
  ∧ ∀ a b, a ∈ take n (sort_values_desc l) →
           b ∈ drop n (sort_values_desc l) →
           (mean_rating b ≤ mean_rating a)%Qc.
Proof.
  pose proof (sort_values_desc_sorted l) as Hs.
  rewrite <-(take_drop n (sort_values_desc l)) in Hs.
  apply StronglySorted_app in Hs as (Hcross & Htake & _).
  split; [done|]. split; [|by intros a b Ha Hb; apply Hcross].
  rewrite <-(sort_values_desc_perm l) at 2. apply submseteq_take.
Qed.

Lemma support_150_50 {K} (l : list (agg_row K)) :
  filter (λ g, 150 ≤ count g) l
  = filter (λ g, 150 ≤ count g) (filter (λ g, 50 ≤ count g) l).
Proof. rewrite list_filter_filter. apply list_filter_iff. intros g. lia. Qed.

(** C6: the ranking over the movies with at least 150 ratings is never
    longer than the ranking over the movies with at least 50 ratings of
    the same frame, neither has more than 5 rows, each is as long as its
    pool allows up to 5, and every movie ranked with the higher threshold
    belongs to the pool of the lower one. *)
Theorem top5_lengths (view : dataframe) :
  length (top5_150 view) ≤ length (top5_50 view)
  ∧ length (top5_50 view) ≤ 5
  ∧ length (top5_150 view) ≤ 5
  ∧ length (top5_50 view)
    = 5 `min` length (filter (λ g, 50 ≤ count g) (movie_grouped view))
  ∧ length (top5_150 view)
    = 5 `min` length (filter (λ g, 150 ≤ count g) (movie_grouped view))
  ∧ ∀ g, g ∈ top5_150 view →
         g ∈ filter (λ g, 50 ≤ count g) (movie_grouped view).
Proof.
  unfold top5_50, top5_150.
  rewrite !length_take, !sort_values_desc_length.
  pose proof (length_filter (λ g : agg_row string, 150 ≤ count g)
                (filter (λ g, 50 ≤ count g) (movie_grouped view))) as Hle.
  rewrite <-support_150_50 in Hle.
  repeat split; try lia.
  intros g Hg. apply (subseteq_take 5) in Hg.
  rewrite elem_of_sort_values_desc, support_150_50 in Hg. by apply list_elem_of_filter in Hg as [_ Hg].
Qed.



End rankings.



(** With the merging sort the same two movies keep their group order. *)
Example tie_order_of_merge_desc :
  top5_50 (H:=merge_desc_sort) Samples.two_tied_movies
  = movie_grouped Samples.two_tied_movies.
Proof. vm_compute. reflexivity. Qed.

(** ** Genre counts *)

Lemma str_split_length sep s : 0 < length (str_split sep s).
Proof.
  induction s as [|c s IH]; simpl; [lia|].
  destruct (Ascii.eqb c sep); simpl; [lia|].
  destruct (str_split sep s); simpl; lia.
Qed.

Lemma total_count_empty : total_count ∅ = 0.
Proof. unfold total_count. by rewrite map_to_list_empty. Qed.

Lemma total_count_incr (m : gmap string nat) g :
  total_count (<[g := S (default 0 (m !! g))]> m) = S (total_count m).
Proof.
  unfold total_count. destruct (m !! g) as [c|] eqn:Hg; simpl.
  - rewrite <-insert_delete_eq.
    rewrite map_to_list_insert by apply lookup_delete_eq.
    rewrite <-(map_to_list_delete m g c Hg). by rewrite !fmap_cons.
  - rewrite map_to_list_insert by done. by rewrite fmap_cons.
Qed.

Lemma total_count_value_counts xs :
  total_count (value_counts xs) = length (omap id xs).
Proof.
  induction xs as [|[g|] xs IH]; simpl.
  - apply total_count_empty.
  - fold (value_counts xs). by rewrite total_count_incr, IH.
  - done.
Qed.

(** The count of a genre is the number of cells that hold it. *)
Lemma value_counts_lookup xs g :
  default 0 (value_counts xs !! g) = length (filter (λ x, x = Some g) xs).
Proof.
  induction xs as [|[g'|] xs IH]; simpl; [done|..]; fold (value_counts xs);
    rewrite filter_cons.
  - destruct (decide (Some g' = Some g)) as [[= ->]|Hne].
    + rewrite lookup_insert_eq. simpl. by rewrite IH.
    + rewrite lookup_insert_ne by congruence. done.
  - destruct (decide (None = Some g)); done.
Qed.

Lemma omap_id_Some {A} (l : list A) : omap id (Some <$> l) = l.
Proof. induction l as [|x l IH]; [done|]. csimpl. by rewrite IH. Qed.

Lemma explode_tags r :
  length (omap id (explode (str_split "|" <$> genres r)))
  = length (genre_tags r).
Proof.
  unfold genre_tags. destruct (genres r) as [s|]; simpl; [|done].
  pose proof (str_split_length "|" s) as Hpos.
  destruct (str_split "|" s) as [|w ws] eqn:E; simpl in *; [lia|].
  change (length (omap id (Some <$> w :: ws)) = length (w :: ws)).
  by rewrite omap_id_Some.
Qed.

Lemma total_count_genre_counts (view : dataframe) :
  total_count (genre_counts view)
  = sum_list_with (λ r, length (genre_tags r)) view.
Proof.
  unfold genre_counts. rewrite total_count_value_counts.
  induction view as [|r view IH]; [done|].
  rewrite bind_cons, omap_app, length_app, IH, explode_tags. done.
Qed.

Lemma genre_tags_present r :
  is_Some (genres r) → 0 < length (genre_tags r).
Proof.
  intros [s Hs]. unfold genre_tags. rewrite Hs. apply str_split_length.
Qed.

Lemma genre_tags_missing r :
  ¬ is_Some (genres r) → length (genre_tags r) = 0.
Proof.
  unfold genre_tags. destruct (genres r); [|done]. intros []. eauto.
Qed.

(** Counting the rows that have tags against the number of tags. *)
Lemma tags_against_rows (view : dataframe) :
  length (filter (λ r, is_Some (genres r)) view)
    ≤ sum_list_with (λ r, length (genre_tags r)) view
  ∧ (sum_list_with (λ r, length (genre_tags r)) view
       = length (filter (λ r, is_Some (genres r)) view)
     ↔ ∀ r, r ∈ view → is_Some (genres r) → length (genre_tags r) = 1).
Proof.
  induction view as [|r view [IHle IHeq]]; simpl.
  { split; [done|]. split; [|done]. by intros _ r ?%elem_of_nil. }
  rewrite filter_cons. destruct (decide (is_Some (genres r))) as [Hr|Hr]; simpl.
  - pose proof (genre_tags_present r Hr) as Hpos. split; [lia|]. split.
    + intros Heq r' [->|Hin]%elem_of_cons Hsome; [lia|].
      apply IHeq; [lia|done..].
    + intros Hall.
      rewrite (Hall r) by (done || left).
      f_equal. apply IHeq. intros r' Hin. apply Hall. by right.
  - rewrite (genre_tags_missing r Hr). split; [lia|]. split.
    + intros Heq r' [->|Hin]%elem_of_cons Hsome; [done|].
      apply IHeq; [lia|done..].
    + intros Hall. simpl. apply IHeq. intros r' Hin. apply Hall. by right.
Qed.

Lemma filter_present_all (view : dataframe) :
  (∀ r, r ∈ view → is_Some (genres r)) →
  filter (λ r, is_Some (genres r)) view = view.
Proof.
  induction view as [|r view IH]; intros Hall; [done|].
  rewrite filter_cons. destruct (decide (is_Some (genres r))) as [Hr|Hr].
  - f_equal. apply IH. intros r' Hin. apply Hall. by right.
  - destruct Hr. apply Hall. left.
Qed.

(** C5, as the code has it: the per-genre counts add up to the number of
    genre tags of the frame, a record without a genres cell having none.
    The sum is at least the number of records that have a genres cell, and
    equals it exactly when each of those carries one tag; the sum equals
    the number of all records, none of them lacking the cell, exactly
    when every record carries one tag. *)
Theorem genre_counts_total (view : dataframe) :
  total_count (genre_counts view)
  = sum_list_with (λ r, length (genre_tags r)) view
  ∧ length (filter (λ r, is_Some (genres r)) view)
    ≤ total_count (genre_counts view)
  ∧ (total_count (genre_counts view)
       = length (filter (λ r, is_Some (genres r)) view)
     ↔ ∀ r, r ∈ view → is_Some (genres r) → length (genre_tags r) = 1)
  ∧ (total_count (genre_counts view) = length view
       ∧ (∀ r, r ∈ view → is_Some (genres r))
     ↔ ∀ r, r ∈ view → length (genre_tags r) = 1).
Proof.
  rewrite total_count_genre_counts.
  destruct (tags_against_rows view) as [Hle Heq].
  split; [done|]. split; [done|]. split; [done|]. split.
  - intros [Htot Hall] r Hr. apply Heq; [|done|by apply Hall].
    by rewrite filter_present_all.
  - intros Hone.
    assert (∀ r, r ∈ view → is_Some (genres r)) as Hall.
    { intros r Hr. specialize (Hone r Hr). unfold genre_tags in Hone.
      destruct (genres r); [eauto|]. simpl in Hone. lia. }
    split; [|done].
    rewrite <-(filter_present_all view Hall) at 2.
    apply Heq. auto.
Qed.

(** A filtered frame whose only record has no genres cell: one record,
    no count at all. *)
Lemma missing_genres_count_nothing :
  ¬ ∀ (df : dataframe) (rg : Z * Z) (os gs : list string),
      length (filtered_df df rg os gs)
      ≤ total_count (genre_counts (filtered_df df rg os gs)).
Proof.
  intros Hge.
  specialize (Hge Samples.with_missing_genres (30, 50)%Z
                ["engineer"; "teacher"] ["M"; "F"]).
  vm_compute in Hge. lia.
Qed.

(** ** Defaults and the "Clear All Filters" button *)

Lemma foldl_min_spec (l : list Z) (x : Z) :
  foldl Z.min x l ∈ x :: l ∧ ∀ y, y ∈ x :: l → (foldl Z.min x l ≤ y)%Z.
Proof.
  revert x. induction l as [|z l IH]; intros x; simpl.
  { split; [left|]. intros y ->%list_elem_of_singleton. lia. }
  destruct (IH (Z.min x z)) as [Hin Hle]. split.
  - apply elem_of_cons in Hin as [->|Hin]; [|by do 2 right].
    destruct (Z.min_spec x z) as [[_ ->]|[_ ->]]; [left|right; left].
  - intros y Hy.
    assert (foldl Z.min (Z.min x z) l ≤ Z.min x z)%Z as Hm by (apply Hle; left).
    apply elem_of_cons in Hy as [->|[->|Hy]%elem_of_cons]; [lia|lia|].
    apply Hle. by right.
Qed.

Lemma foldl_max_spec (l : list Z) (x : Z) :
  foldl Z.max x l ∈ x :: l ∧ ∀ y, y ∈ x :: l → (y ≤ foldl Z.max x l)%Z.
Proof.
  revert x. induction l as [|z l IH]; intros x; simpl.
  { split; [left|]. intros y ->%list_elem_of_singleton. lia. }
  destruct (IH (Z.max x z)) as [Hin Hle]. split.
  - apply elem_of_cons in Hin as [->|Hin]; [|by do 2 right].
    destruct (Z.max_spec x z) as [[_ ->]|[_ ->]]; [right; left|left].
  - intros y Hy.
    assert (Z.max x z ≤ foldl Z.max (Z.max x z) l)%Z as Hm by (apply Hle; left).
    apply elem_of_cons in Hy as [->|[->|Hy]%elem_of_cons]; [lia|lia|].
    apply Hle. by right.
Qed.

Lemma py_min_spec (l : list Z) (m : Z) :
  py_min l = Some m → m ∈ l ∧ ∀ y, y ∈ l → (m ≤ y)%Z.
Proof.
  destruct l as [|x l]; [done|]. intros [= <-]. apply foldl_min_spec.
Qed.

Lemma py_max_spec (l : list Z) (m : Z) :
  py_max l = Some m → m ∈ l ∧ ∀ y, y ∈ l → (y ≤ m)%Z.
Proof.
  destruct l as [|x l]; [done|]. intros [= <-]. apply foldl_max_spec.
Qed.

Lemma elem_of_unique_ages (df : dataframe) (a : Z) :
  a ∈ unique_ages df ↔ ∃ r, r ∈ df ∧ age r = a.
Proof.
  unfold unique_ages, sorted_Z.
  rewrite merge_sort_Permutation, elem_of_unique, list_elem_of_fmap.
  split.
  - intros (r & -> & Hr). eauto.
  - intros (r & Hr & <-). eauto.
Qed.

Lemma unique_ages_nil (df : dataframe) : unique_ages df = [] ↔ df = [].
Proof.
  unfold unique_ages, sorted_Z. split; [|by intros ->].
  intros Hnil. destruct df as [|r df]; [done|].
  assert (age r ∈ merge_sort Z.le (unique (age <$> r :: df))) as Hin.
  { rewrite merge_sort_Permutation, elem_of_unique. left. }
  rewrite Hnil in Hin. by apply elem_of_nil in Hin.
Qed.

(** The script gets past line 24 exactly when the data set has a row. *)
Lemma defaults_is_Some (df : dataframe) : is_Some (defaults df) ↔ df ≠ [].
Proof.
  unfold defaults, default_age_range. rewrite <-unique_ages_nil.
  destruct (unique_ages df) as [|a l]; simpl.
  - split; [by intros [? ?]|done].
  - split; [done|eauto].
Qed.

Lemma default_age_range_spec (df : dataframe) (lo hi : Z) :
  default_age_range df = Some (lo, hi) →
  (∃ r, r ∈ df ∧ age r = lo) ∧ (∃ r, r ∈ df ∧ age r = hi)
  ∧ ∀ r, r ∈ df → (lo ≤ age r ≤ hi)%Z.
Proof.
  unfold default_age_range. intros Hd.
  destruct (py_min (unique_ages df)) as [lo'|] eqn:Hmin; [|done].
  destruct (py_max (unique_ages df)) as [hi'|] eqn:Hmax; [|done].
  simpl in Hd. injection Hd as -> ->.
  apply py_min_spec in Hmin as [Hlo Hmin].
  apply py_max_spec in Hmax as [Hhi Hmax].
  repeat split.
  - by apply elem_of_unique_ages.
  - by apply elem_of_unique_ages.
  - apply Hmin, elem_of_unique_ages. eauto.
  - apply Hmax, elem_of_unique_ages. eauto.
Qed.


Lemma current_selection_clear_filters (d : selection) (ss : session_state) :
  current_selection (clear_filters d ss) = Some d.
Proof.
  unfold current_selection, clear_filters, slider, multiselect.
  destruct d as [[lo hi] os gs]. by simplify_map_eq.
Qed.




(** ** Changes of a widget *)

Lemma filtered_df_no_occupation (df : dataframe) rg gs :
  filtered_df df rg [] gs = [].
Proof.
  apply filtered_df_nil. intros r _ (_ & Ho & _).
  unfold occupation_mask in Ho. by apply elem_of_nil in Ho.
Qed.

Lemma filtered_df_no_gender (df : dataframe) rg os :
  filtered_df df rg os [] = [].
Proof.
  apply filtered_df_nil. intros r _ (_ & _ & Hg).
  unfold gender_mask in Hg. by apply elem_of_nil in Hg.
Qed.

Lemma filtered_df_inverted_range (df : dataframe) lo hi os gs :
  (hi < lo)%Z → filtered_df df (lo, hi) os gs = [].
Proof.
  intros Hinv. apply filtered_df_nil. intros r _ ([Hlo Hhi] & _).
  simpl in *. lia.
Qed.

(** C4, as the code has it: no change of a widget is turned down.  The
    value chosen becomes the current selection for its key and the other
    two keys keep theirs, also when the occupation list or the gender
    list chosen is empty; with an empty occupation list, an empty gender
    list, or age bounds in the wrong order, the filtered frame is
    empty. *)
Theorem widget_change_is_taken (df : dataframe) (ss : session_state)
    (sel : selection) :
  current_selection ss = Some sel →
  (∀ os, current_selection (widget_change "occupations" (ListValue os) ss)
         = Some (Selection (age_range sel) os (genders sel)))
  ∧ (∀ gs, current_selection (widget_change "genders" (ListValue gs) ss)
           = Some (Selection (age_range sel) (occupations sel) gs))
  ∧ (∀ lo hi, current_selection (widget_change "age_range" (RangeValue lo hi) ss)
              = Some (Selection (lo, hi) (occupations sel) (genders sel)))
  ∧ (∀ rg gs, filtered_df df rg [] gs = [])
  ∧ (∀ rg os, filtered_df df rg os [] = [])
  ∧ (∀ lo hi os gs, (hi < lo)%Z → filtered_df df (lo, hi) os gs = []).
Proof.
  unfold current_selection, widget_change, slider, multiselect.
  intros Hsel.
  destruct (ss !! "age_range") as [[lo hi|]|] eqn:Hrg; try done.
  destruct (ss !! "occupations") as [[|os]|] eqn:Hos; try done.
  destruct (ss !! "genders") as [[|gs]|] eqn:Hgs; try done.
  simpl in Hsel. injection Hsel as <-. simpl.
  split; [|split; [|split; [|split; [|split]]]].
  - intros os'. by simplify_map_eq.
  - intros gs'. by simplify_map_eq.
  - intros lo' hi'. by simplify_map_eq.
  - intros. apply filtered_df_no_occupation.
  - intros. apply filtered_df_no_gender.
  - intros. by apply filtered_df_inverted_range.
Qed.

Lemma widget_change_is_taken_witness :
  current_selection
    (widget_change "occupations" (ListValue [])
       (clear_filters (Selection (25, 40)%Z ["engineer"; "teacher"] ["M"; "F"]) ∅))
  = Some (Selection (25, 40)%Z [] ["M"; "F"])
  ∧ filtered_df Samples.two_ratings (25, 40)%Z [] ["M"; "F"] = [].
Proof.
  destruct (widget_change_is_taken Samples.two_ratings
              (clear_filters (Selection (25, 40)%Z ["engineer"; "teacher"] ["M"; "F"]) ∅)
              (Selection (25, 40)%Z ["engineer"; "teacher"] ["M"; "F"]))
    as (Hos & _ & _ & Hnil & _); [by vm_compute|].
  split; [apply Hos|apply Hnil].
Defined.

(** Emptying the occupation list of a valid selection goes through and
    changes the selection. *)
Lemma empty_occupations_are_taken :
  ¬ ∀ (ss : session_state) (sel : selection),
      current_selection ss = Some sel → valid_selection sel →
      current_selection (widget_change "occupations" (ListValue []) ss)
      = Some sel.
Proof.
  intros Hkept.
  specialize (Hkept
    (clear_filters (Selection (25, 40)%Z ["engineer"; "teacher"] ["M"; "F"]) ∅)
    (Selection (25, 40)%Z ["engineer"; "teacher"] ["M"; "F"])).
  rewrite current_selection_clear_filters in Hkept.
  assert (valid_selection (Selection (25, 40)%Z ["engineer"; "teacher"] ["M"; "F"]))
    as Hvalid by (unfold valid_selection; simpl; repeat split; (lia || done)).
  specialize (Hkept eq_refl Hvalid). vm_compute in Hkept. discriminate.
Qed.

(** ** The documented scenarios, run on the model *)

Example first_run_shows_everything :
  snd <$> run Samples.two_ratings ∅ = Some Samples.two_ratings.
Proof. vm_compute. reflexivity. Qed.

Example scenario_full_selection :
  map_to_list (genre_counts
    (filtered_df Samples.two_ratings (25, 40)%Z ["engineer"; "teacher"] ["M"; "F"]))
  ≡ₚ [("Action", 1); ("Comedy", 2)].
Proof. vm_compute. apply perm_swap. Qed.

Example scenario_age_30_50 :
  filtered_df Samples.two_ratings (30, 50)%Z ["engineer"; "teacher"] ["M"; "F"]
  = [Samples.rec 40 "F" "teacher" "B" (Some "Comedy") 2000 2]
  ∧ map_to_list (genre_counts
      (filtered_df Samples.two_ratings (30, 50)%Z ["engineer"; "teacher"] ["M"; "F"]))
    = [("Comedy", 1)]
  ∧ genre_grouped
      (filtered_df Samples.two_ratings (30, 50)%Z ["engineer"; "teacher"] ["M"; "F"]) = []
  ∧ year_grouped
      (filtered_df Samples.two_ratings (30, 50)%Z ["engineer"; "teacher"] ["M"; "F"]) = [].
Proof. vm_compute. done. Qed.

(** Records without a genres cell reach the second warning of view 1. *)
Example scenario_no_genre_data :
  genre_breakdown
    (filtered_df Samples.with_missing_genres (30, 50)%Z ["engineer"; "teacher"] ["M"; "F"])
  = Warning "No genre data available for the selected filters.".
Proof. vm_compute. reflexivity. Qed.

(** * Further properties of the script *)

(** ** Splitting the genres cell *)

Lemma concat_two (sep x y : string) (l : list string) :
  String.concat sep (x :: y :: l) = x +:+ sep +:+ String.concat sep (y :: l).
Proof. done. Qed.

(** Joining the pieces of a split with the separator gives the string
    back. *)
Theorem str_split_join (sep : ascii) (s : string) :
  str_join sep (str_split sep s) = s.
Proof.
  unfold str_join. induction s as [|c s IH]; [done|]. simpl str_split.
  pose proof (str_split_length sep s) as Hpos.
  destruct (Ascii.eqb c sep) eqn:Hc.
  - apply Ascii.eqb_eq in Hc as ->.
    destruct (str_split sep s) as [|w ws]; [simpl in Hpos; lia|].
    rewrite concat_two, IH. done.
  - destruct (str_split sep s) as [|w [|w' ws]]; [simpl in Hpos; lia|..].
    + simpl in *. by rewrite IH.
    + rewrite concat_two in *. by rewrite <-IH.
Qed.

(** A split gives one piece more than the string has separators, and no
    piece holds a separator. *)
Theorem str_split_pieces (sep : ascii) (s : string) :
  length (str_split sep s) = S (str_count sep s)
  ∧ Forall (λ w, str_count sep w = 0) (str_split sep s).
Proof.
  induction s as [|c s [IHlen IHall]]; simpl.
  { split; [done|]. by repeat constructor. }
  destruct (Ascii.eqb c sep) eqn:Hc; simpl.
  - split; [by rewrite IHlen|]. by constructor.
  - destruct (str_split sep s) as [|w ws]; [done|].
    split; [done|]. apply Forall_cons in IHall as [Hw Hws].
    constructor; [|done]. simpl. by rewrite Hc.
Qed.

(** ** More on filtering *)

Lemma filter_all {A} (P : A → Prop) `{∀ x, Decision (P x)} (l : list A) :
  (∀ x, x ∈ l → P x) → filter P l = l.
Proof.
  induction l as [|x l IH]; intros Hall; [done|].
  rewrite filter_cons. destruct (decide (P x)) as [_|Hn].
  - f_equal. apply IH. intros y Hy. apply Hall. by right.
  - destruct Hn. apply Hall. left.
Qed.

Lemma defaults_pass (df : dataframe) (d : selection) :
  defaults df = Some d →
  ∀ r, r ∈ df → passes (age_range d) (occupations d) (genders d) r.
Proof.
  intros Hd. unfold defaults in Hd.
  destruct (default_age_range df) as [[lo hi]|] eqn:Hrg; [|done].
  simpl in Hd. injection Hd as <-. simpl.
  apply default_age_range_spec in Hrg as (_ & _ & Hages).
  intros r Hr. split; [by apply Hages|].
  split; apply elem_of_unique, list_elem_of_fmap; eauto.
Qed.

(** With the defaults of the data set selected, every row passes: the
    filtered frame is the data set. *)
Theorem filtered_df_defaults (df : dataframe) (d : selection) :
  defaults df = Some d →
  filtered_df df (age_range d) (occupations d) (genders d) = df.
Proof.
  intros Hd. rewrite filtered_df_filter.
  by apply filter_all, defaults_pass.
Qed.

Lemma filtered_df_defaults_witness :
  filtered_df Samples.two_ratings (25, 40)%Z ["engineer"; "teacher"] ["M"; "F"]
  = Samples.two_ratings.
Proof.
  apply (filtered_df_defaults Samples.two_ratings
           (Selection (25, 40)%Z ["engineer"; "teacher"] ["M"; "F"])).
  vm_compute. reflexivity.
Defined.

Lemma filter_sublist_impl {A} (P Q : A → Prop) `{∀ x, Decision (P x)}
    `{∀ x, Decision (Q x)} (l : list A) :
  (∀ x, P x → Q x) → filter P l `sublist_of` filter Q l.
Proof.
  intros HPQ. induction l as [|x l IH]; [done|].
  rewrite !filter_cons.
  destruct (decide (P x)) as [HP|HP], (decide (Q x)) as [HQ|HQ].
  - by apply sublist_skip.
  - destruct HQ. auto.
  - by apply sublist_cons.
  - done.
Qed.

(** Widening a selection only adds rows: with age bounds that enclose the
    old ones and lists that hold the old choices, the old filtered frame
    is a subsequence of the new one. *)
Theorem filtered_df_monotone (df : dataframe) (rg rg' : Z * Z)
    (os os' gs gs' : list string) :
  (rg'.1 ≤ rg.1)%Z → (rg.2 ≤ rg'.2)%Z → os ⊆ os' → gs ⊆ gs' →
  filtered_df df rg os gs `sublist_of` filtered_df df rg' os' gs'.
Proof.
  intros Hlo Hhi Hos Hgs. rewrite !filtered_df_filter.
  apply filter_sublist_impl. intros r ([Ha1 Ha2] & Ho & Hg).
  split; [split; lia|]. split; [by apply Hos|by apply Hgs].
Qed.

Lemma filtered_df_monotone_witness :
  filtered_df Samples.two_ratings (30, 50)%Z ["teacher"] ["F"]
  `sublist_of`
  filtered_df Samples.two_ratings (25, 50)%Z ["engineer"; "teacher"] ["M"; "F"].
Proof.
  apply filtered_df_monotone; simpl; [lia|lia|..];
    intros x ->%list_elem_of_singleton; rewrite !elem_of_cons; auto.
Defined.

(** Only the set of chosen values matters: the order of the chosen
    occupations and genders, and a value chosen twice, change nothing. *)
Theorem filtered_df_selection_as_set (df : dataframe) (rg : Z * Z)
    (os os' gs gs' : list string) :
  (∀ o, o ∈ os ↔ o ∈ os') → (∀ g, g ∈ gs ↔ g ∈ gs') →
  filtered_df df rg os gs = filtered_df df rg os' gs'.
Proof.
  intros Hos Hgs. rewrite !filtered_df_filter. apply list_filter_iff.
  intros r. unfold passes, occupation_mask, gender_mask.
  by rewrite Hos, Hgs.
Qed.

Lemma filtered_df_selection_as_set_witness :
  filtered_df Samples.two_ratings (25, 40)%Z ["teacher"; "engineer"; "teacher"] ["F"; "M"]
  = filtered_df Samples.two_ratings (25, 40)%Z ["engineer"; "teacher"] ["M"; "F"].
Proof.
  apply filtered_df_selection_as_set; intros x;
    rewrite !elem_of_cons, !elem_of_nil; tauto.
Defined.

(** The three masks can be applied in any order, and applying the same
    selection to an already filtered frame changes nothing. *)
Theorem filtered_df_order_free (df : dataframe) (rg : Z * Z) (os gs : list string) :
  filter (age_mask rg) (filter (gender_mask gs) (filter (occupation_mask os) df))
  = filtered_df df rg os gs
  ∧ filter (occupation_mask os) (filter (age_mask rg) (filter (gender_mask gs) df))
    = filtered_df df rg os gs
  ∧ filtered_df (filtered_df df rg os gs) rg os gs = filtered_df df rg os gs.
Proof.
  split; [|split].
  - rewrite filtered_df_filter, !list_filter_filter.
    apply list_filter_iff. intros r. unfold passes. tauto.
  - rewrite filtered_df_filter, !list_filter_filter.
    apply list_filter_iff. intros r. unfold passes. tauto.
  - rewrite !filtered_df_filter. apply filter_all.
    by intros r [Hp _]%list_elem_of_filter.
Qed.

(** The preview shows at most a hundred rows, the first ones of the
    filtered frame; they are rows of the data set in its order, each of
    them passing the three masks, and the preview is the whole filtered
    frame when that has no more than a hundred rows. *)
Theorem dataset_preview_rows (df : dataframe) (rg : Z * Z) (os gs : list string) :
  dataset_preview (filtered_df df rg os gs) `prefix_of` filtered_df df rg os gs
  ∧ length (dataset_preview (filtered_df df rg os gs))
    = 100 `min` length (filtered_df df rg os gs)
  ∧ dataset_preview (filtered_df df rg os gs) `sublist_of` df
  ∧ Forall (passes rg os gs) (dataset_preview (filtered_df df rg os gs))
  ∧ (length (filtered_df df rg os gs) ≤ 100 ↔
     dataset_preview (filtered_df df rg os gs) = filtered_df df rg os gs).
Proof.
  unfold dataset_preview. split; [apply prefix_take|].
  split; [apply length_take|]. split.
  { etrans; [apply sublist_take|apply filtered_df_sublist]. }
  split.
  - apply Forall_forall. intros r Hr%(subseteq_take 100).
    by apply elem_of_filtered_df in Hr as [_ Hr].
  - split; [by apply take_ge|]. intros Heq.
    rewrite <-Heq, length_take. lia.
Qed.

(** ** More on the defaults *)

Lemma foldl_min_least (l : list Z) (x : Z) :
  Forall (Z.le x) l → foldl Z.min x l = x.
Proof.
  revert x. induction l as [|z l IH]; intros x Hx; [done|].
  apply Forall_cons in Hx as [Hz Hl]. simpl.
  rewrite Z.min_l by done. by apply IH.
Qed.

Lemma foldl_max_last (l : list Z) (x : Z) :
  StronglySorted Z.le (x :: l) → foldl Z.max x l = default x (last l).
Proof.
  revert x. induction l as [|z l IH]; intros x Hs; [done|].
  apply StronglySorted_cons in Hs as [Hx Hs].
  apply Forall_cons in Hx as [Hz _]. simpl foldl.
  rewrite Z.max_r by done. rewrite IH by done.
  rewrite last_cons. by destruct (last l).
Qed.

Lemma unique_ages_sorted (df : dataframe) :
  StronglySorted Z.le (unique_ages df) ∧ NoDup (unique_ages df).
Proof.
  unfold unique_ages, sorted_Z. split.
  - apply StronglySorted_merge_sort; apply _.
  - rewrite merge_sort_Permutation. apply NoDup_unique.
Qed.

(** The distinct ages come out of line 23 in strictly increasing order,
    so the bounds of the age slider, and the default age range, are the
    first and the last of them. *)
Theorem default_age_range_ends (df : dataframe) :
  StronglySorted Z.lt (unique_ages df)
  ∧ default_age_range df
    = (lo ← head (unique_ages df); hi ← last (unique_ages df); Some (lo, hi)).
Proof.
  destruct (unique_ages_sorted df) as [Hs Hnd]. split.
  - eapply StronglySorted_mono;
      [|by apply StronglySorted_NoDup_strict]. simpl. lia.
  - unfold default_age_range. destruct (unique_ages df) as [|x l]; [done|].
    simpl py_min. simpl py_max. simpl head.
    rewrite foldl_min_least by by apply StronglySorted_cons in Hs as [? _].
    rewrite foldl_max_last by done. rewrite last_cons.
    by destruct (last l).
Qed.

(** The defaults of a data set are a valid selection: the lower age bound
    is not above the upper one, and at least one occupation and one gender
    are chosen. *)
Theorem defaults_valid (df : dataframe) (d : selection) :
  defaults df = Some d → valid_selection d.
Proof.
  intros Hd.
  assert (df ≠ []) as Hne by (apply defaults_is_Some; eauto).
  unfold defaults in Hd.
  destruct (default_age_range df) as [[lo hi]|] eqn:Hrg; [|done].
  simpl in Hd. injection Hd as <-. unfold valid_selection. simpl.
  apply default_age_range_spec in Hrg as (_ & _ & Hages).
  destruct df as [|r df]; [done|]. split; [|done].
  assert (lo ≤ age r ≤ hi)%Z by (apply Hages; left). lia.
Qed.

Lemma defaults_valid_witness :
  valid_selection (Selection (25, 40)%Z ["engineer"; "teacher"] ["M"; "F"]).
Proof.
  apply (defaults_valid Samples.two_ratings). vm_compute. reflexivity.
Defined.

(** ** More on the session state *)

Lemma lookup_init_key (key key' : string) (v : widget_value) (ss : session_state) :
  init_key key v ss !! key'
  = if decide (key = key') then Some (default v (ss !! key)) else ss !! key'.
Proof.
  unfold init_key. destruct (ss !! key) as [w|] eqn:Hk.
  - destruct (decide (key = key')) as [<-|]; [by rewrite Hk|done].
  - destruct (decide (key = key')) as [<-|].
    + by rewrite lookup_insert_eq.
    + by rewrite lookup_insert_ne.
Qed.

Lemma init_key_present (key : string) (v w : widget_value) (ss : session_state) :
  ss !! key = Some w → init_key key v ss = ss.
Proof. intros Hk. unfold init_key. by rewrite Hk. Qed.

(** Lines 28-33 never replace a value that the session already holds:
    every key present keeps its value, and a key outside the three
    widget keys is as absent or present as before. *)
Theorem init_session_state_keeps (d : selection) (ss : session_state) :
  (∀ key v, ss !! key = Some v → init_session_state d ss !! key = Some v)
  ∧ (∀ key, key ≠ "age_range" → key ≠ "occupations" → key ≠ "genders" →
            init_session_state d ss !! key = ss !! key).
Proof.
  unfold init_session_state. split.
  - intros key v Hk. rewrite !lookup_init_key.
    repeat (destruct (decide _) as [<-|_]);
      rewrite ?lookup_init_key; repeat case_decide; try done;
      by rewrite ?Hk.
  - intros key H1 H2 H3. rewrite !lookup_init_key.
    by repeat (destruct (decide _) as [<-|_]).
Qed.

Lemma init_session_state_fresh (d : selection) :
  current_selection (init_session_state d ∅) = Some d.
Proof. destruct d as [[lo hi] os gs]. by vm_compute. Qed.

Lemma init_session_state_present (d sel : selection) (ss : session_state) :
  current_selection ss = Some sel → init_session_state d ss = ss.
Proof.
  unfold current_selection, slider, multiselect, init_session_state.
  intros Hsel.
  destruct (ss !! "age_range") as [[lo hi|]|] eqn:Hrg; try done.
  destruct (ss !! "occupations") as [[|os]|] eqn:Hos; try done.
  destruct (ss !! "genders") as [[|gs]|] eqn:Hgs; try done.
  by rewrite (init_key_present "age_range" _ _ _ Hrg),
    (init_key_present "occupations" _ _ _ Hos),
    (init_key_present "genders" _ _ _ Hgs).
Qed.

(** On a first visit the session starts from the defaults; once the three
    keys hold a selection, lines 28-33 change nothing; and running them
    twice is the same as running them once. *)
Theorem init_session_state_selection (d : selection) (ss : session_state) :
  current_selection (init_session_state d ∅) = Some d
  ∧ (∀ sel, current_selection ss = Some sel → init_session_state d ss = ss)
  ∧ init_session_state d (init_session_state d ss) = init_session_state d ss.
Proof.
  split; [apply init_session_state_fresh|split].
  - intros sel. apply init_session_state_present.
  - apply map_eq. intros key. unfold init_session_state.
    rewrite !lookup_init_key.
    repeat (destruct (decide _) as [<-|?]);
      rewrite ?lookup_init_key; repeat case_decide; try done;
      by destruct (ss !! _).
Qed.

(** Settling a lookup by cases on which widget key is looked up. *)
Ltac by_widget_key k :=
  destruct (decide (k = "genders")) as [->|?]; [by simplify_map_eq|];
  destruct (decide (k = "occupations")) as [->|?]; [by simplify_map_eq|];
  destruct (decide (k = "age_range")) as [->|?]; by simplify_map_eq.

(** The "Clear All Filters" callback sets the three widget keys and
    nothing else; it wipes out whatever a widget had stored before; a
    second click changes nothing; and the initialisation that follows on
    the rerun leaves its result alone. *)
Theorem clear_filters_effect (d : selection) (ss : session_state) :
  (∀ key, key ≠ "age_range" → key ≠ "occupations" → key ≠ "genders" →
          clear_filters d ss !! key = ss !! key)
  ∧ (∀ key v, key = "age_range" ∨ key = "occupations" ∨ key = "genders" →
              clear_filters d (widget_change key v ss) = clear_filters d ss)
  ∧ clear_filters d (clear_filters d ss) = clear_filters d ss
  ∧ (∀ d', init_session_state d' (clear_filters d ss) = clear_filters d ss).
Proof.
  split; [|split; [|split]].
  - intros key H1 H2 H3. unfold clear_filters. by simplify_map_eq.
  - intros key v Hkey. unfold clear_filters, widget_change.
    apply map_eq. intros k.
    destruct Hkey as [-> | [-> | ->] ]; by_widget_key k.
  - unfold clear_filters. apply map_eq. intros k. by_widget_key k.
  - intros d'. eapply init_session_state_present.
    apply current_selection_clear_filters.
Qed.

(** ** A run of the script *)



(** ** More on the genre counts *)

Lemma explode_cells r :
  explode (str_split "|" <$> genres r)
  = match genres r with
    | None => [None]
    | Some _ => Some <$> genre_tags r
    end.
Proof.
  unfold genre_tags. destruct (genres r) as [s|]; [|done]. simpl.
  pose proof (str_split_length "|" s) as Hpos.
  by destruct (str_split "|" s); [simpl in Hpos; lia|].
Qed.

Lemma filter_Some_length {A} `{EqDecision A} (l : list A) (x : A) :
  length (filter (λ y, y = Some x) (Some <$> l))
  = length (filter (λ y, y = x) l).
Proof.
  induction l as [|y l IH]; [done|]. rewrite fmap_cons, !filter_cons.
  destruct (decide (Some y = Some x)), (decide (y = x)); simpl;
    try congruence; by rewrite IH.
Qed.

Lemma cells_of_genre r g :
  length (filter (λ x, x = Some g) (explode (str_split "|" <$> genres r)))
  = length (filter (λ t, t = g) (genre_tags r)).
Proof.
  rewrite explode_cells. unfold genre_tags.
  destruct (genres r) as [s|]; [apply filter_Some_length|done].
Qed.

Lemma value_counts_pos xs g n : value_counts xs !! g = Some n → 0 < n.
Proof.
  revert n. induction xs as [|[g'|] xs IH]; intros n; simpl.
  - done.
  - fold (value_counts xs). destruct (decide (g' = g)) as [->|Hne].
    + rewrite lookup_insert_eq. intros [= <-]. lia.
    + rewrite lookup_insert_ne by done. apply IH.
  - apply IH.
Qed.



Lemma sum_list_with_pos {A} (f : A → nat) (l : list A) :
  0 < sum_list_with f l ↔ ∃ x, x ∈ l ∧ 0 < f x.
Proof.
  induction l as [|y l IH]; simpl.
  - split; [lia|]. by intros (x & ?%elem_of_nil & _).
  - split.
    + intros Hpos. destruct (decide (0 < f y)) as [Hy|Hy].
      * exists y. split; [left|done].
      * destruct IH as [IH _]. destruct IH as (x & Hx & Hfx); [lia|].
        exists x. split; [by right|done].
    + intros (x & [->|Hx]%elem_of_cons & Hfx); [lia|].
      assert (0 < sum_list_with f l) by (apply IH; eauto). lia.
Qed.

Lemma filter_eq_pos {A} `{EqDecision A} (l : list A) (x : A) :
  0 < length (filter (λ y, y = x) l) ↔ x ∈ l.
Proof.
  split.
  - intros Hpos. destruct (filter (λ y, y = x) l) as [|y k] eqn:E;
      [simpl in Hpos; lia|].
    assert (y ∈ filter (λ y, y = x) l) as Hy by (rewrite E; left).
    by apply list_elem_of_filter in Hy as [-> Hy].
  - intros Hx.
    assert (x ∈ filter (λ y, y = x) l) as Hin by by apply list_elem_of_filter.
    destruct (filter (λ y, y = x) l); [by apply elem_of_nil in Hin|simpl; lia].
Qed.

Lemma genre_counts_default (view : dataframe) g :
  default 0 (genre_counts view !! g)
  = sum_list_with (λ r, length (filter (λ t, t = g) (genre_tags r))) view.
Proof.
  unfold genre_counts. rewrite value_counts_lookup.
  induction view as [|r view IH]; [done|].
  rewrite bind_cons, filter_app, length_app, IH, cells_of_genre. done.
Qed.

(** The count that view 1 shows for a genre is the number of times the
    genre is tagged on the records of the frame; a genre is listed
    exactly when some record carries it, and never with a count of 0. *)
Theorem genre_counts_per_genre (view : dataframe) (g : string) :
  default 0 (genre_counts view !! g)
  = sum_list_with (λ r, length (filter (λ t, t = g) (genre_tags r))) view
  ∧ genre_counts view !! g ≠ Some 0
  ∧ (is_Some (genre_counts view !! g) ↔ ∃ r, r ∈ view ∧ g ∈ genre_tags r).
Proof.
  split; [apply genre_counts_default|]. split.
  { intros H0. apply value_counts_pos in H0. lia. }
  pose proof (genre_counts_default view g) as Hd.
  split.
  - intros [n Hn]. unfold genre_counts in Hd. fold (genre_counts view) in Hd.
    pose proof (value_counts_pos _ _ _ Hn) as Hpos.
    rewrite Hn in Hd. simpl in Hd.
    assert (0 < sum_list_with
                  (λ r, length (filter (λ t, t = g) (genre_tags r))) view)
      as Hsum by lia.
    apply sum_list_with_pos in Hsum as (r & Hr & Hg).
    exists r. split; [done|]. by apply filter_eq_pos in Hg.
  - intros (r & Hr & Hg).
    assert (0 < sum_list_with
                  (λ r, length (filter (λ t, t = g) (genre_tags r))) view)
      as Hsum.
    { apply sum_list_with_pos. exists r. split; [done|]. by apply filter_eq_pos. }
    destruct (genre_counts view !! g) as [n|]; [eauto|]. simpl in Hd. lia.
Qed.


(** ** More on the grouped frames *)

Lemma sum_list_with_fmap {A B} (f : A → B) (c : B → nat) (l : list A) :
  sum_list_with c (f <$> l) = sum_list_with (λ x, c (f x)) l.
Proof. induction l as [|x l IH]; [done|]. csimpl. by rewrite IH. Qed.

Lemma sum_list_with_ext_in {A} (f g : A → nat) (l : list A) :
  (∀ x, x ∈ l → f x = g x) → sum_list_with f l = sum_list_with g l.
Proof.
  induction l as [|x l IH]; intros Hfg; [done|]. simpl.
  rewrite (Hfg x) by left. rewrite IH; [done|].
  intros y Hy. apply Hfg. by right.
Qed.

Lemma sum_one_key {K} `{EqDecision K} (ks : list K) (x : K) :
  NoDup ks →
  sum_list_with (λ k, if decide (x = k) then 1 else 0) ks
  = if decide (x ∈ ks) then 1 else 0.
Proof.
  induction 1 as [|k ks Hk Hnd IH]; [done|]. simpl. rewrite IH.
  destruct (decide (x = k)) as [->|Hne].
  - rewrite decide_False by done. rewrite decide_True by left. done.
  - destruct (decide (x ∈ ks)) as [Hin|Hin].
    + rewrite decide_True by by right. done.
    + rewrite decide_False; [done|].
      by intros [?|?]%elem_of_cons.
Qed.

(** The groups of a frame split its rows: the sizes of the groups of a
    duplicate-free list of keys that covers the frame add up to the
    number of rows. *)
Lemma group_sizes_sum {Row K} `{EqDecision K} (key : Row → K)
    (rows : list Row) (ks : list K) :
  NoDup ks → (∀ r, r ∈ rows → key r ∈ ks) →
  sum_list_with (λ k, length (filter (λ r, key r = k) rows)) ks = length rows.
Proof.
  intros Hnd. induction rows as [|r rows IH]; intros Hcover.
  - clear. induction ks as [|k ks IHk]; [done|]. simpl in *. lia.
  - transitivity
      (sum_list_with (λ k, (if decide (key r = k) then 1 else 0)
                           + length (filter (λ r, key r = k) rows)) ks).
    { apply sum_list_with_ext_in. intros k _. rewrite filter_cons.
      by destruct (decide (key r = k)). }
    transitivity
      (sum_list_with (λ k, if decide (key r = k) then 1 else 0) ks
       + sum_list_with (λ k, length (filter (λ r, key r = k) rows)) ks).
    { clear. induction ks as [|k ks IHk]; simpl; lia. }
    rewrite sum_one_key by done. rewrite decide_True by (apply Hcover; left).
    rewrite IH; [done|]. intros r' Hr'. apply Hcover. by right.
Qed.

Lemma groupby_agg_count_sum {Row K} `{EqDecision K} (le : relation K)
    `{!RelDecision le} (key : Row → K) (val : Row → Z) (rows : list Row) :
  sum_list_with count (groupby_agg le key val rows) = length rows.
Proof.
  unfold groupby_agg. rewrite sum_list_with_fmap. simpl.
  apply group_sizes_sum.
  - unfold group_keys. rewrite merge_sort_Permutation. apply NoDup_unique.
  - intros r Hr. unfold group_keys.
    rewrite merge_sort_Permutation, elem_of_unique.
    by apply list_elem_of_fmap_2.
Qed.

Lemma dropna_cells_length {A B} (r : B) (cells : list (option A)) :
  length (dropna ((λ g, (g, r)) <$> cells)) = length (omap id cells).
Proof.
  unfold dropna. induction cells as [|[g|] cells IH]; [done|..]; csimpl;
    by rewrite ?IH.
Qed.

Lemma dropna_genre_ratings_length (view : dataframe) :
  length (dropna (genre_ratings view)) = total_count (genre_counts view).
Proof.
  unfold genre_counts. rewrite total_count_value_counts.
  unfold genre_ratings. induction view as [|r view IH]; [done|].
  rewrite !bind_cons. unfold dropna in *.
  rewrite !omap_app, !length_app, IH.
  f_equal. apply (dropna_cells_length r).
Qed.

(** Every frame that a group-by gives accounts for each row once: the
    counts of the year groups, and of the movie groups, add up to the
    number of ratings; the counts of the genre groups add up to the sum
    of the genre counts of view 1. *)
Theorem group_counts_add_up (view : dataframe) :
  sum_list_with count (year_grouped_all view) = length view
  ∧ sum_list_with count (movie_grouped view) = length view
  ∧ sum_list_with count (genre_grouped_all view)
    = total_count (genre_counts view).
Proof.
  split; [apply groupby_agg_count_sum|]. split; [apply groupby_agg_count_sum|].
  unfold genre_grouped_all. rewrite groupby_agg_count_sum.
  apply dropna_genre_ratings_length.
Qed.

Lemma genre_ratings_of_genre (view : dataframe) (x : option string) :
  length (filter (λ row, row.1 = x) (genre_ratings view))
  = length (filter (λ c, c = x)
              (view ≫= (λ r, explode (str_split "|" <$> genres r)))).
Proof.
  unfold genre_ratings. induction view as [|r view IH]; [done|].
  rewrite !bind_cons, !filter_app, !length_app, IH. f_equal.
  generalize (explode (str_split "|" <$> genres r)). intros cells.
  induction cells as [|c cells IHc]; [done|].
  rewrite fmap_cons, !filter_cons. simpl.
  destruct (decide (c = x)); simpl; by rewrite IHc.
Qed.

Lemma genre_group_count (view : dataframe) (g : string) :
  length (group fst (dropna (genre_ratings view)) g)
  = default 0 (genre_counts view !! g).
Proof.
  unfold group. rewrite dropna_group_length, genre_ratings_of_genre.
  unfold genre_counts. by rewrite value_counts_lookup.
Qed.

Lemma genre_grouped_all_lookup (view : dataframe) (row : agg_row string) :
  row ∈ genre_grouped_all view →
  genre_counts view !! group_key row = Some (count row).
Proof.
  intros Hrow. unfold genre_grouped_all in Hrow.
  pose proof (groupby_agg_count_pos String.le fst _ _ _ Hrow) as Hpos.
  apply (elem_of_groupby_agg String.le fst) in Hrow as (_ & _ & Hc).
  rewrite genre_group_count in Hc.
  destruct (genre_counts view !! group_key row) as [n|]; simpl in Hc;
    [by rewrite Hc|lia].
Qed.

Lemma genre_counts_has_group (view : dataframe) (g : string) (n : nat) :
  genre_counts view !! g = Some n →
  ∃ row, row ∈ genre_grouped_all view ∧ group_key row = g ∧ count row = n.
Proof.
  intros Hn.
  pose proof (value_counts_pos _ _ _ Hn) as Hpos.
  pose proof (genre_group_count view g) as Hc.
  unfold genre_counts in Hn. fold (genre_counts view) in Hn.
  rewrite Hn in Hc. simpl in Hc.
  exists (AggRow g (mean ((λ row, rating row.2)
                            <$> group fst (dropna (genre_ratings view)) g))
            (length (group fst (dropna (genre_ratings view)) g))).
  split; [|by split]. unfold genre_grouped_all.
  apply (elem_of_groupby_agg String.le fst). simpl. split; [|done].
  destruct (group fst (dropna (genre_ratings view)) g) as [|row rows] eqn:E;
    [simpl in Hc; lia|].
  assert (row ∈ group fst (dropna (genre_ratings view)) g) as Hin
    by (rewrite E; left).
  apply list_elem_of_filter in Hin as [Hk Hin]. eauto.
Qed.

(** Views 1 and 2 agree: before the threshold, the genre groups of view 2
    are the genres that view 1 counts, each with the same count. *)
Theorem genre_views_agree (view : dataframe) :
  (∀ row, row ∈ genre_grouped_all view →
          genre_counts view !! group_key row = Some (count row))
  ∧ (∀ g n, genre_counts view !! g = Some n →
            ∃ row, row ∈ genre_grouped_all view
                   ∧ group_key row = g ∧ count row = n).
Proof.
  split; [apply genre_grouped_all_lookup|apply genre_counts_has_group].
Qed.

(** A genre is in the satisfaction chart of view 2 exactly when view 1
    counts at least 50 ratings for it. *)
Theorem genre_grouped_from_counts (view : dataframe) (g : string) :
  g ∈ group_key <$> genre_grouped view
  ↔ ∃ n, genre_counts view !! g = Some n ∧ 50 ≤ n.
Proof.
  unfold genre_grouped. rewrite list_elem_of_fmap. split.
  - intros (row & -> & [Hc Hrow]%list_elem_of_filter).
    exists (count row). split; [by apply genre_grouped_all_lookup|done].
  - intros (n & Hn & Hle).
    apply genre_counts_has_group in Hn as (row & Hrow & <- & <-).
    exists row. split; [done|]. by apply list_elem_of_filter.
Qed.

Lemma elem_of_dropna_genre_ratings (view : dataframe) (g : string) (r : rating_record) :
  (g, r) ∈ dropna (genre_ratings view) ↔ r ∈ view ∧ g ∈ genre_tags r.
Proof.
  unfold dropna, genre_ratings.
  rewrite list_elem_of_omap. split.
  - intros ([c r'] & Hin & Hsome). simpl in Hsome.
    destruct c as [g'|]; simplify_eq/=.
    apply list_elem_of_bind in Hin as (r'' & Hin & Hr'').
    apply list_elem_of_fmap in Hin as (c & [= <- <-] & Hc).
    split; [done|]. rewrite explode_cells in Hc. unfold genre_tags in *.
    destruct (genres r) as [s|].
    + by apply list_elem_of_fmap in Hc as (t & [= <-] & Ht).
    + by apply list_elem_of_singleton in Hc.
  - intros [Hr Hg]. exists (Some g, r). split; [|done].
    apply list_elem_of_bind. exists r. split; [|done].
    apply list_elem_of_fmap. exists (Some g). split; [done|].
    rewrite explode_cells. unfold genre_tags in *.
    destruct (genres r) as [s|]; [|by apply elem_of_nil in Hg].
    by apply list_elem_of_fmap_2.
Qed.

(** The movie groups and the genre groups stand in strictly ascending
    order of title and of genre, the code-point order of strings; every
    title, genre tag and year of the frame has its group, and no other
    key has one. *)
Theorem grouped_frames_keys (view : dataframe) :
  StronglySorted (λ a b, String.le (group_key a) (group_key b)
                         ∧ group_key a ≠ group_key b) (movie_grouped view)
  ∧ StronglySorted (λ a b, String.le (group_key a) (group_key b)
                           ∧ group_key a ≠ group_key b) (genre_grouped_all view)
  ∧ (∀ t, t ∈ group_key <$> movie_grouped view ↔ ∃ r, r ∈ view ∧ title r = t)
  ∧ (∀ y, y ∈ group_key <$> year_grouped_all view ↔ ∃ r, r ∈ view ∧ year r = y)
  ∧ (∀ g, g ∈ group_key <$> genre_grouped_all view
          ↔ ∃ r, r ∈ view ∧ g ∈ genre_tags r).
Proof.
  split; [unfold movie_grouped; apply (groupby_agg_sorted String.le title)|].
  split; [unfold genre_grouped_all; apply (groupby_agg_sorted String.le fst)|].
  split; [|split].
  - intros t. unfold movie_grouped.
    rewrite groupby_agg_keys. apply (elem_of_group_keys String.le title).
  - intros y. unfold year_grouped_all.
    rewrite groupby_agg_keys. apply (elem_of_group_keys Z.le year).
  - intros g. unfold genre_grouped_all. rewrite groupby_agg_keys.
    rewrite (elem_of_group_keys String.le fst). split.
    + intros ([g' r] & Hin & <-). exists r. by apply elem_of_dropna_genre_ratings.
    + intros (r & Hr & Hg). exists (g, r). split; [|done].
      by apply elem_of_dropna_genre_ratings.
Qed.

(** ** Means *)






(** ** Thresholds and the size of the frame *)

Lemma filter_sublist_mono {A} (P : A → Prop) `{∀ x, Decision (P x)}
    (l k : list A) :
  l `sublist_of` k → filter P l `sublist_of` filter P k.
Proof.
  induction 1 as [|x l k Hsub IH|x l k Hsub IH]; [done|..];
    rewrite ?filter_cons; destruct (decide (P x)); try done.
  - by apply sublist_skip.
  - by apply sublist_cons.
Qed.

Lemma filter_none {A} (P : A → Prop) `{∀ x, Decision (P x)} (l : list A) :
  (∀ x, x ∈ l → ¬ P x) → filter P l = [].
Proof.
  intros Hnone. destruct (filter P l) as [|x k] eqn:E; [done|].
  assert (x ∈ filter P l) as Hx by (rewrite E; left).
  apply list_elem_of_filter in Hx as [HP Hx]. by destruct (Hnone x).
Qed.

Lemma groupby_agg_count_le {Row K} `{EqDecision K} (le : relation K)
    `{!RelDecision le} (key : Row → K) (val : Row → Z) (rows : list Row)
    (g : agg_row K) :
  g ∈ groupby_agg le key val rows → count g ≤ length rows.
Proof.
  unfold groupby_agg. intros (k & -> & _)%list_elem_of_fmap. simpl.
  apply length_filter.
Qed.

(** A group that reaches a threshold on a part of a frame reaches it on
    the whole frame, with at least as many ratings. *)
Lemma groupby_agg_support_mono {Row K} `{EqDecision K} (le : relation K)
    `{!RelDecision le} (key : Row → K) (val : Row → Z)
    (part rows : list Row) (n : nat) (g : agg_row K) :
  part `sublist_of` rows →
  g ∈ filter (λ g, n ≤ count g) (groupby_agg le key val part) →
  ∃ g', g' ∈ filter (λ g, n ≤ count g) (groupby_agg le key val rows)
        ∧ group_key g' = group_key g ∧ count g ≤ count g'.
Proof.
  intros Hsub [Hn Hg]%list_elem_of_filter.
  unfold groupby_agg in Hg. apply list_elem_of_fmap in Hg as (k & -> & Hk).
  simpl in *. unfold group_keys in Hk.
  rewrite merge_sort_Permutation, elem_of_unique in Hk.
  apply list_elem_of_fmap in Hk as (r & -> & Hr).
  pose proof (sublist_length _ _
    (filter_sublist_mono (λ r', key r' = key r) _ _ Hsub)) as Hle.
  exists (AggRow (key r) (mean (val <$> group key rows (key r)))
            (length (group key rows (key r)))).
  unfold group in *. simpl. split; [|split; [done|lia]].
  apply list_elem_of_filter. simpl. split; [lia|].
  unfold groupby_agg. apply list_elem_of_fmap. exists (key r). split; [done|].
  unfold group_keys. rewrite merge_sort_Permutation, elem_of_unique.
  apply list_elem_of_fmap_2. by eapply elem_of_sublist.
Qed.

(** Narrowing the selection never brings a new year into the trend, a
    new genre into the satisfaction chart or a new movie into a ranking
    pool: a group that reaches its threshold on the filtered frame
    reaches it on the whole data set, with at least as many ratings. *)
Theorem filtering_keeps_within_groups (df : dataframe) (rg : Z * Z)
    (os gs : list string) :
  (∀ g, g ∈ year_grouped (filtered_df df rg os gs) →
        ∃ g', g' ∈ year_grouped df
              ∧ group_key g' = group_key g ∧ count g ≤ count g')
  ∧ (∀ g, g ∈ filter (λ g, 50 ≤ count g) (movie_grouped (filtered_df df rg os gs)) →
          ∃ g', g' ∈ filter (λ g, 50 ≤ count g) (movie_grouped df)
                ∧ group_key g' = group_key g ∧ count g ≤ count g')
  ∧ (∀ g, g ∈ filter (λ g, 150 ≤ count g) (movie_grouped (filtered_df df rg os gs)) →
          ∃ g', g' ∈ filter (λ g, 150 ≤ count g) (movie_grouped df)
                ∧ group_key g' = group_key g ∧ count g ≤ count g').
Proof.
  pose proof (filtered_df_sublist df rg os gs) as Hsub.
  split; [|split]; intros g.
  - unfold year_grouped, year_grouped_all.
    by apply (groupby_agg_support_mono Z.le year rating).
  - unfold movie_grouped.
    by apply (groupby_agg_support_mono String.le title rating).
  - unfold movie_grouped.
    by apply (groupby_agg_support_mono String.le title rating).
Qed.

Lemma NoDup_of_submseteq {A} (l k : list A) : l ⊆+ k → NoDup k → NoDup l.
Proof.
  intros [k' Hk]%submseteq_Permutation Hnd. rewrite Hk in Hnd.
  by apply NoDup_app in Hnd as [? _].
Qed.

Section small_frames.
Context `{SortValues}.

(** A frame with fewer than 50 ratings gives no trend point and no
    ranking at all, and one with fewer than 150 gives no ranking for the
    higher threshold. *)
Theorem few_ratings_no_groups (view : dataframe) :
  (length view < 50 →
   year_grouped view = [] ∧ trend_points view = [] ∧ top5_50 view = [])
  ∧ (length view < 150 → top5_150 view = []).
Proof.
  split.
  - intros Hlen.
    assert (year_grouped view = []) as Hy.
    { unfold year_grouped, year_grouped_all. apply filter_none.
      intros g Hg%(groupby_agg_count_le Z.le year rating). lia. }
    split; [done|]. split; [unfold trend_points; by rewrite Hy|].
    unfold top5_50, movie_grouped.
    rewrite filter_none, sort_values_desc_nil; [done|].
    intros g Hg%(groupby_agg_count_le String.le title rating). lia.
  - intros Hlen. unfold top5_150, movie_grouped.
    rewrite filter_none, sort_values_desc_nil; [done|].
    intros g Hg%(groupby_agg_count_le String.le title rating). lia.
Qed.

(** The frame given to the bar plot of view 2 holds exactly the genre
    groups that passed the threshold, each genre once, in descending
    order of mean rating. *)
Theorem genre_barplot_data_sorted (view : dataframe) :
  StronglySorted by_mean_desc (genre_barplot_data view)
  ∧ genre_barplot_data view ≡ₚ genre_grouped view
  ∧ NoDup (group_key <$> genre_barplot_data view).
Proof.
  split; [apply sort_values_desc_sorted|].
  split; [apply sort_values_desc_perm|].
  unfold genre_barplot_data. rewrite sort_values_desc_perm.
  unfold genre_grouped.
  eapply NoDup_of_submseteq;
    [apply fmap_submseteq, sublist_submseteq, sublist_filter|].
  unfold genre_grouped_all. rewrite groupby_agg_keys.
  unfold group_keys. rewrite merge_sort_Permutation. apply NoDup_unique.
Qed.

(** A ranking lists its whole pool exactly when the pool has no more
    than five movies; in any case no title is listed twice. *)
Theorem top5_whole_pool (view : dataframe) :
  (length (filter (λ g, 50 ≤ count g) (movie_grouped view)) ≤ 5
   ↔ top5_50 view ≡ₚ filter (λ g, 50 ≤ count g) (movie_grouped view))
  ∧ (length (filter (λ g, 150 ≤ count g) (movie_grouped view)) ≤ 5
     ↔ top5_150 view ≡ₚ filter (λ g, 150 ≤ count g) (movie_grouped view))
  ∧ NoDup (group_key <$> top5_50 view)
  ∧ NoDup (group_key <$> top5_150 view).
Proof.
  assert (∀ n, NoDup (group_key <$>
            take 5 (sort_values_desc
                      (filter (λ g, n ≤ count g) (movie_grouped view)))))
    as Hnd.
  { intros n. eapply NoDup_of_submseteq.
    - apply fmap_submseteq. etrans; [apply submseteq_take|].
      rewrite sort_values_desc_perm. apply sublist_submseteq, sublist_filter.
    - unfold movie_grouped. rewrite groupby_agg_keys.
      unfold group_keys. rewrite merge_sort_Permutation. apply NoDup_unique. }
  assert (∀ l : list (agg_row string),
            length l ≤ 5 ↔ take 5 (sort_values_desc l) ≡ₚ l) as Hall.
  { intros l. split.
    - intros Hlen. rewrite take_ge by (by rewrite sort_values_desc_length).
      apply sort_values_desc_perm.
    - intros Hperm. apply Permutation_length in Hperm.
      rewrite length_take in Hperm. lia. }
  unfold top5_50, top5_150. split; [apply Hall|]. split; [apply Hall|].
  split; apply Hnd.
Qed.

(** A movie ranked with the higher threshold is either ranked with the
    lower one too, or the lower ranking is full and each of its five
    movies has a mean at least as high. *)
Theorem top5_150_against_top5_50 (view : dataframe) (a : agg_row string) :
  a ∈ top5_150 view →
  a ∈ top5_50 view
  ∨ (length (top5_50 view) = 5
     ∧ ∀ b, b ∈ top5_50 view → (mean_rating a ≤ mean_rating b)%Qc).
Proof.
  unfold top5_150, top5_50. intros Ha. apply (subseteq_take 5) in Ha.
  rewrite elem_of_sort_values_desc, support_150_50 in Ha.
  apply list_elem_of_filter in Ha as [_ Ha].
  destruct (head_of_sorted 5 (filter (λ g, 50 ≤ count g) (movie_grouped view)))
    as (_ & _ & Hbest).
  apply elem_of_sort_values_desc in Ha.
  rewrite <-(take_drop 5 (sort_values_desc _)) in Ha.
  apply elem_of_app in Ha as [Ha|Ha]; [by left|right]. split.
  - rewrite length_take. apply list_elem_of_lookup in Ha as [i Hi].
    apply lookup_lt_Some in Hi. rewrite length_drop in Hi. lia.
  - intros b Hb. by apply Hbest.
Qed.

End small_frames.

Lemma few_ratings_no_groups_witness :
  year_grouped Samples.two_ratings = []
  ∧ trend_points Samples.two_ratings = []
  ∧ top5_50 Samples.two_ratings = [].
Proof.
  apply (few_ratings_no_groups Samples.two_ratings). simpl. lia.
Defined.

Lemma top5_150_against_top5_50_witness :
  AggRow "A" (mean (replicate 150 4%Z)) 150 ∈ top5_50 Samples.one_popular_movie
  ∨ (length (top5_50 Samples.one_popular_movie) = 5
     ∧ ∀ b, b ∈ top5_50 Samples.one_popular_movie →
            (mean_rating (AggRow "A" (mean (replicate 150 4%Z)) 150)
             ≤ mean_rating b)%Qc).
Proof.
  apply (top5_150_against_top5_50 Samples.one_popular_movie).
  assert (top5_150 Samples.one_popular_movie
          = [AggRow "A" (mean (replicate 150 4%Z)) 150]) as ->
    by (vm_compute; reflexivity).
  left.
Defined.


(** ** What the thresholds keep *)

Lemma elem_of_supported_keys {Row K} `{EqDecision K} (le : relation K)
    `{!RelDecision le} (key : Row → K) (val : Row → Z) (rows : list Row)
    (n : nat) (k : K) :
  0 < n →
  k ∈ group_key <$> filter (λ g, n ≤ count g) (groupby_agg le key val rows)
  ↔ n ≤ length (filter (λ r, key r = k) rows).
Proof.
  intros Hn. rewrite list_elem_of_fmap. split.
  - intros (g & -> & [Hc Hg]%list_elem_of_filter).
    apply (elem_of_groupby_agg le key) in Hg as (_ & _ & Hcount).
    unfold group in Hcount. by rewrite <-Hcount.
  - intros Hlen.
    exists (AggRow k (mean (val <$> group key rows k)) (length (group key rows k))).
    split; [done|]. apply list_elem_of_filter. split; [done|].
    apply (elem_of_groupby_agg le key). simpl. split; [|done].
    destruct (filter (λ r, key r = k) rows) as [|r l] eqn:E;
      [simpl in Hlen; lia|].
    assert (r ∈ filter (λ r, key r = k) rows) as Hin by (rewrite E; left).
    apply list_elem_of_filter in Hin as [Hk Hin]. eauto.
Qed.

(** The thresholds drop nothing that has the support: a year is in the
    trend exactly when at least 50 ratings of the frame are for movies
    of that year, and a title is in a ranking pool exactly when the frame
    holds at least 50, respectively 150, ratings of it. *)
Theorem thresholds_keep_the_supported (view : dataframe) :
  (∀ y, y ∈ group_key <$> year_grouped view
        ↔ 50 ≤ length (filter (λ r, year r = y) view))
  ∧ (∀ t, t ∈ group_key <$> filter (λ g, 50 ≤ count g) (movie_grouped view)
          ↔ 50 ≤ length (filter (λ r, title r = t) view))
  ∧ (∀ t, t ∈ group_key <$> filter (λ g, 150 ≤ count g) (movie_grouped view)
          ↔ 150 ≤ length (filter (λ r, title r = t) view)).
Proof.
  split; [|split].
  - intros y. unfold year_grouped, year_grouped_all.
    apply (elem_of_supported_keys Z.le year rating). lia.
  - intros t. unfold movie_grouped.
    apply (elem_of_supported_keys String.le title rating). lia.
  - intros t. unfold movie_grouped.
    apply (elem_of_supported_keys String.le title rating). lia.
Qed.
